(** * EventCard: countdown engine and image carousel

    Shallow embedding of the two computations of the [EventCard] component:
    [calculateTimeLeft] (the countdown refreshed every second) and the image
    carousel handlers [nextImage], [previousImage], [toggleImageFullscreen].

    JavaScript numbers that the code handles are integers (time values,
    array indices): they are modelled as [Z], with [option Z] where the code
    can produce [NaN] ([None]).  [Math.floor (a / b)] for a positive
    divisor is [Z.div]; JavaScript [%] is the truncated remainder [Z.rem]
    and gives [NaN] for a zero divisor. *)

From Stdlib Require Import ZArith QArith String Ascii List Bool Lia.
Import ListNotations.
Open Scope Z_scope.

(** ** Values of the component *)

(** [CountdownState]: the object given to [setCountdown]. *)
Record CountdownState := mkCountdown {
  days : Z;
  hrs : Z;
  mins : Z;
  secs : Z;
  isExpired : bool
}.

Definition expired_state : CountdownState :=
  {| days := 0; hrs := 0; mins := 0; secs := 0; isExpired := true |}.

(** JavaScript truthiness of a prop typed [string] that may be missing at
    run time: [undefined] ([None]) and [""] are falsy. *)
Definition truthy (v : option string) : bool :=
  match v with
  | None => false
  | Some s => negb (String.eqb s EmptyString)
  end.

(** Exceptions a JavaScript statement can raise. *)
Inductive exn := TypeError.

(** [v.split(':')]; calling a method on [undefined] raises [TypeError]. *)
Fixpoint split_colon_from (s acc : string) : list string :=
  match s with
  | EmptyString => [acc]
  | String c r =>
      if Ascii.eqb c ":"%char then acc :: split_colon_from r EmptyString
      else split_colon_from r (acc ++ String c EmptyString)
  end.

Definition js_split_colon (v : option string) : exn + list string :=
  match v with
  | None => inl TypeError
  | Some s => inr (split_colon_from s EmptyString)
  end.

(** Millisecond constants of the code and of ECMAScript's Date. *)
Definition msPerSecond : Z := 1000.
Definition msPerMinute : Z := 1000 * 60.
Definition msPerHour : Z := 1000 * 60 * 60.
Definition msPerDay : Z := 1000 * 60 * 60 * 24.
Definition maxTimeValue : Z := 8640000000000000.

(** [ToIntegerOrInfinity] on a finite number: truncation toward zero. *)
Definition to_integer (q : Q) : Z := Z.quot (Qnum q) (Zpos (Qden q)).

(** ECMAScript [TimeClip]; time values are integers, [None] is [NaN]. *)
Definition TimeClip (t : option Z) : option Z :=
  match t with
  | Some z => if Z.abs z <=? maxTimeValue then Some z else None
  | None => None
  end.

(** ECMAScript [Day] and [MakeTime]; a number argument is [option Q],
    [None] standing for a non-finite number ([NaN] or an infinity). *)
Definition Day (t : Z) : Z := t / msPerDay.

Definition MakeTime (hour min sec ms : option Q) : option Z :=
  match hour, min, sec, ms with
  | Some h, Some m, Some s, Some milli =>
      Some (to_integer h * msPerHour + to_integer m * msPerMinute
            + to_integer s * msPerSecond + to_integer milli)
  | _, _, _, _ => None
  end.

Definition MakeDate (day time : Z) : Z := day * msPerDay + time.

(** The destructured element of [eventTime.split(':').map(Number)] as the
    argument of [setHours]: an absent element is [undefined], whose
    [ToNumber] is [NaN]. *)
Definition arg_number (v : option (option Q)) : option Q :=
  match v with
  | Some n => n
  | None => None
  end.

Section Countdown.

(** The engine's [ToNumber] on strings ([Number(s)]), its date-string
    parser ([Date.parse]), and the local time-zone offsets used by
    [LocalTime] (offset at a UTC instant) and [UTC] (offset of a local
    time). *)
Variable ToNumber : string -> option Q.
Variable Date_parse : string -> option Z.
Variable offset_of_utc : Z -> Z.
Variable offset_of_local : Z -> Z.

Definition LocalTime (t : Z) : Z := t + offset_of_utc t.
Definition UTC (t : Z) : Z := t - offset_of_local t.

(** [new Date(v)] for a string [v]; [new Date(undefined)] is an invalid
    date. *)
Definition new_Date (v : option string) : option Z :=
  match v with
  | Some s => TimeClip (Date_parse s)
  | None => None
  end.

(** [Date.prototype.setHours(hour, min, sec, ms)]: the new time value. *)
Definition setHours (tv : option Z) (hour min sec ms : option Q) : option Z :=
  match tv with
  | None => None
  | Some t =>
      let lt := LocalTime t in
      match MakeTime hour min sec ms with
      | None => None
      | Some time => TimeClip (Some (UTC (MakeDate (Day lt) time)))
      end
  end.

(** Line 72: [const [timeHours, timeMinutes] = parts.map(Number)]. *)
Definition time_fields (parts : list string) : option Q * option Q :=
  let nums := map ToNumber parts in
  (arg_number (nth_error nums 0), arg_number (nth_error nums 1)).

(** Lines 72-74: the target time value, [targetDate.getTime()] after
    [targetDate.setHours(timeHours, timeMinutes, 0, 0)]. *)
Definition parse_target (eventDate eventTime : option string)
  : exn + option Z :=
  match js_split_colon eventTime with
  | inl e => inl e
  | inr parts =>
      let '(timeHours, timeMinutes) := time_fields parts in
      inr (setHours (new_Date eventDate) timeHours timeMinutes
                    (Some 0%Q) (Some 0%Q))
  end.

(** Lines 91-96: the decomposition of a positive [difference]; [%] has a
    non-zero constant divisor here, so it is [Z.rem]. *)
Definition decompose (difference : Z) : CountdownState :=
  let days := difference / msPerDay in
  let hrs := Z.rem difference msPerDay / msPerHour in
  let mins := Z.rem difference msPerHour / msPerMinute in
  let secs := Z.rem difference msPerMinute / msPerSecond in
  {| days := days; hrs := hrs; mins := mins; secs := secs;
     isExpired := false |}.

(** Lines 67-96: the body of the [try] block; [inr s] is the state given
    to [setCountdown] before [return], [inl e] an exception escaping the
    block.  [now] is [new Date().getTime()]. *)
Definition calculateTimeLeft_body (eventDate eventTime : option string)
  (now : Z) : exn + CountdownState :=
  if negb (truthy eventDate) || negb (truthy eventTime) then inr expired_state
  else
    match parse_target eventDate eventTime with
    | inl e => inl e
    | inr None => inr expired_state
    | inr (Some targetTime) =>
        let difference := targetTime - now in
        if difference <=? 0 then inr expired_state
        else inr (decompose difference)
    end.

(** [calculateTimeLeft]: the [catch] clause turns any exception into the
    expired state. *)
Definition calculateTimeLeft (eventDate eventTime : option string) (now : Z)
  : CountdownState :=
  match calculateTimeLeft_body eventDate eventTime now with
  | inl _ => expired_state
  | inr s => s
  end.

End Countdown.

(** ** Concrete engine instances

    These fix the engine parameters on the inputs the examples use: a UTC
    time zone, [Number] on decimal integer strings and [Date.parse] on ISO
    date-only strings.  The theorems below hold for every engine; these
    instances only serve to evaluate the code on concrete inputs. *)

Definition utc_offset (_ : Z) : Z := 0.

Definition is_js_space (c : ascii) : bool :=
  let n := nat_of_ascii c in
  (n =? 32)%nat || (n =? 9)%nat || (n =? 10)%nat || (n =? 11)%nat
  || (n =? 12)%nat || (n =? 13)%nat.

Definition digit_value (c : ascii) : option Z :=
  let n := nat_of_ascii c in
  if (48 <=? n)%nat && (n <=? 57)%nat then Some (Z.of_nat (n - 48)) else None.

Fixpoint digits_value (cs : list ascii) (acc : Z) : option Z :=
  match cs with
  | [] => Some acc
  | c :: r =>
      match digit_value c with
      | Some d => digits_value r (acc * 10 + d)
      | None => None
      end
  end.

Fixpoint drop_spaces (cs : list ascii) : list ascii :=
  match cs with
  | c :: r => if is_js_space c then drop_spaces r else cs
  | [] => []
  end.

(** [Number(s)] for strings made of ASCII white space around an optional
    sign and decimal digits, where it agrees with ECMAScript's
    StringToNumber (the empty or blank string is [0]).  The other numeric
    literal forms (fractions, exponents, [0x], [Infinity]) are not read by
    this instance and give [None]. *)
Definition decimal_ToNumber (s : string) : option Q :=
  let cs := rev (drop_spaces (rev (drop_spaces (list_ascii_of_string s)))) in
  match cs with
  | [] => Some 0%Q
  | c :: ds =>
      if Ascii.eqb c "-"%char then
        match ds with
        | [] => None
        | _ => option_map (fun z => inject_Z (- z)) (digits_value ds 0)
        end
      else if Ascii.eqb c "+"%char then
        match ds with
        | [] => None
        | _ => option_map inject_Z (digits_value ds 0)
        end
      else option_map inject_Z (digits_value cs 0)
  end.

Definition leap_year (y : Z) : bool :=
  (Z.eqb (y mod 4) 0 && negb (Z.eqb (y mod 100) 0)) || Z.eqb (y mod 400) 0.

Definition days_in_month (y m : Z) : Z :=
  if Z.eqb m 2 then (if leap_year y then 29 else 28)
  else if Z.eqb m 4 || Z.eqb m 6 || Z.eqb m 9 || Z.eqb m 11 then 30
  else 31.

(** Days from 1970-01-01 to a proleptic Gregorian date. *)
Definition days_from_civil (y m d : Z) : Z :=
  let y' := if m <=? 2 then y - 1 else y in
  let era := y' / 400 in
  let yoe := y' - era * 400 in
  let mp := (m + 9) mod 12 in
  let doy := (153 * mp + 2) / 5 + d - 1 in
  let doe := yoe * 365 + yoe / 4 - yoe / 100 + doy in
  era * 146097 + doe - 719468.

(** [Date.parse] on ["YYYY-MM-DD"] naming a calendar date (read as UTC
    midnight, as ECMAScript prescribes for date-only forms); every other
    string gives [None] in this instance. *)
Definition iso_date_parse (s : string) : option Z :=
  let field i n := digits_value (list_ascii_of_string (substring i n s)) 0 in
  if (String.length s =? 10)%nat then
    match get 4 s, get 7 s, field 0%nat 4%nat, field 5%nat 2%nat, field 8%nat 2%nat with
    | Some c1, Some c2, Some y, Some m, Some d =>
        if Ascii.eqb c1 "-"%char && Ascii.eqb c2 "-"%char
           && (1 <=? m) && (m <=? 12) && (1 <=? d) && (d <=? days_in_month y m)
        then Some (days_from_civil y m d * msPerDay)
        else None
    | _, _, _, _, _ => None
    end
  else None.

(** The countdown on the concrete engine. *)
Definition calculateTimeLeft_utc :=
  calculateTimeLeft decimal_ToNumber iso_date_parse utc_offset utc_offset.

(** ** The image carousel *)


(** JavaScript [a % b] on integers: [NaN] ([None]) when [b] is zero. *)
Definition js_rem (a b : Z) : option Z :=
  if b =? 0 then None else Some (Z.rem a b).

(** The updaters given to [setCurrentImageIndex]; the index is a
    JavaScript number, [None] being [NaN] ([NaN === 0] is false and
    [NaN - 1] is [NaN]). *)
Definition nextImage_update (length : Z) (prev : option Z) : option Z :=
  match prev with
  | Some p => js_rem (p + 1) length
  | None => None
  end.

Definition previousImage_update (length : Z) (prev : option Z) : option Z :=
  match prev with
  | Some p => if p =? 0 then Some (length - 1) else Some (p - 1)
  | None => None
  end.

(** The state hooks of [EventCard]; [config_loaded] says whether [config]
    is non-null. *)
Record CardState := mkCard {
  isExpanded : bool;
  currentImageIndex : option Z;
  isImageFullscreen : bool;
  countdown : CountdownState;
  config_loaded : bool
}.

Definition initial_card : CardState :=
  {| isExpanded := false; currentImageIndex := Some 0;
     isImageFullscreen := false;
     countdown := {| days := 0; hrs := 0; mins := 0; secs := 0;
                     isExpired := false |};
     config_loaded := false |}.

Definition set_currentImageIndex (st : CardState) (i : option Z) : CardState :=
  {| isExpanded := isExpanded st; currentImageIndex := i;
     isImageFullscreen := isImageFullscreen st; countdown := countdown st;
     config_loaded := config_loaded st |}.

Definition set_isImageFullscreen (st : CardState) (b : bool) : CardState :=
  {| isExpanded := isExpanded st; currentImageIndex := currentImageIndex st;
     isImageFullscreen := b; countdown := countdown st;
     config_loaded := config_loaded st |}.

Definition set_isExpanded (st : CardState) (b : bool) : CardState :=
  {| isExpanded := b; currentImageIndex := currentImageIndex st;
     isImageFullscreen := isImageFullscreen st; countdown := countdown st;
     config_loaded := config_loaded st |}.

Definition set_countdown (st : CardState) (c : CountdownState) : CardState :=
  {| isExpanded := isExpanded st; currentImageIndex := currentImageIndex st;
     isImageFullscreen := isImageFullscreen st; countdown := c;
     config_loaded := config_loaded st |}.

Definition set_config (st : CardState) : CardState :=
  {| isExpanded := isExpanded st; currentImageIndex := currentImageIndex st;
     isImageFullscreen := isImageFullscreen st; countdown := countdown st;
     config_loaded := true |}.

(** Lines 109-121: the three handlers, for the images [imgs]. *)
Definition nextImage (imgs : list string) (st : CardState) : CardState :=
  set_currentImageIndex st
    (nextImage_update (Z.of_nat (length imgs)) (currentImageIndex st)).

Definition previousImage (imgs : list string) (st : CardState) : CardState :=
  set_currentImageIndex st
    (previousImage_update (Z.of_nat (length imgs)) (currentImageIndex st)).

Definition toggleImageFullscreen (st : CardState) : CardState :=
  set_isImageFullscreen st (negb (isImageFullscreen st)).

(** Events reaching the component: the configuration fetch resolving with
    a row, a countdown tick, and clicks on the rendered controls. *)
Inductive ui_event :=
  | ConfigLoaded
  | Tick (c : CountdownState)
  | ClickCardImage
  | ClickClose
  | ClickPrevious
  | ClickNext
  | ClickExpand.

(** One event; [None] when the control is not rendered.  Nothing is
    rendered while [config] is null (line 123); the card image needs
    [allImages.length > 0] (line 128); the overlay needs
    [isImageFullscreen && allImages.length > 0] (line 232), and its arrows
    also [hasMultipleImages] (line 241). *)
Definition ui_step (imgs : list string) (st : CardState) (ev : ui_event)
  : option CardState :=
  let n := length imgs in
  let hasMultipleImages := (1 <? n)%nat in
  let overlay := isImageFullscreen st && (0 <? n)%nat in
  match ev with
  | ConfigLoaded => Some (set_config st)
  | Tick c => Some (set_countdown st c)
  | ClickCardImage =>
      if config_loaded st && (0 <? n)%nat
      then Some (toggleImageFullscreen st) else None
  | ClickClose =>
      if config_loaded st && overlay
      then Some (toggleImageFullscreen st) else None
  | ClickPrevious =>
      if config_loaded st && overlay && hasMultipleImages
      then Some (previousImage imgs st) else None
  | ClickNext =>
      if config_loaded st && overlay && hasMultipleImages
      then Some (nextImage imgs st) else None
  | ClickExpand =>
      if config_loaded st then Some (set_isExpanded st (negb (isExpanded st)))
      else None
  end.

Fixpoint ui_run (imgs : list string) (st : CardState) (evs : list ui_event)
  : option CardState :=
  match evs with
  | [] => Some st
  | ev :: rest =>
      match ui_step imgs st ev with
      | Some st' => ui_run imgs st' rest
      | None => None
      end
  end.

(** A sequence of [advance] / [retreat] calls on the index. *)
Inductive nav_op := Advance | Retreat.

Fixpoint run_nav (length : Z) (ops : list nav_op) (idx : option Z)
  : option Z :=
  match ops with
  | [] => idx
  | Advance :: rest => run_nav length rest (nextImage_update length idx)
  | Retreat :: rest => run_nav length rest (previousImage_update length idx)
  end.

(** The data-model invariant of [CountdownState]. *)
Definition CountdownState_wf (s : CountdownState) : Prop :=
  0 <= days s /\ 0 <= hrs s <= 23 /\ 0 <= mins s <= 59 /\ 0 <= secs s <= 59
  /\ (isExpired s = true -> days s = 0 /\ hrs s = 0 /\ mins s = 0 /\ secs s = 0).

(** A valid carousel index. *)
Definition index_valid (length : Z) (idx : option Z) : Prop :=
  match idx with
  | Some i => 0 <= i < length
  | None => False
  end.

(** ** The description paragraphs (lines 206-208)

    Strings are sequences of 8-bit characters, read as Latin-1 code
    units. *)

(** [s.split(sep)] for a one-character separator. *)
Fixpoint split_on_from (sep : ascii) (s acc : string) : list string :=
  match s with
  | EmptyString => [acc]
  | String c r =>
      if Ascii.eqb c sep then acc :: split_on_from sep r EmptyString
      else split_on_from sep r (acc ++ String c EmptyString)
  end.

(** The characters [String.prototype.trim] removes, among the Latin-1
    ones: TAB, LF, VT, FF, CR, space and NO-BREAK SPACE. *)
Definition is_trim_space (c : ascii) : bool :=
  let n := nat_of_ascii c in
  (n =? 9)%nat || (n =? 10)%nat || (n =? 11)%nat || (n =? 12)%nat
  || (n =? 13)%nat || (n =? 32)%nat || (n =? 160)%nat.

Fixpoint drop_trim_space (cs : list ascii) : list ascii :=
  match cs with
  | c :: r => if is_trim_space c then drop_trim_space r else cs
  | [] => []
  end.

(** [s.trim()]. *)
Definition js_trim (s : string) : string :=
  string_of_list_ascii
    (rev (drop_trim_space (rev (drop_trim_space (list_ascii_of_string s))))).

(** [lines.map((paragraph, index) => paragraph.trim() ? <p key={index}>
    {paragraph}</p> : null)] from position [index]: the rendered
    [<p>] elements as (key, text) pairs; [null] children render nothing. *)
Fixpoint paragraphs_from (index : nat) (lines : list string)
  : list (nat * string) :=
  match lines with
  | [] => []
  | paragraph :: rest =>
      if negb (String.eqb (js_trim paragraph) EmptyString)
      then (index, paragraph) :: paragraphs_from (S index) rest
      else paragraphs_from (S index) rest
  end.

Definition description_paragraphs (description : string)
  : list (nat * string) :=
  paragraphs_from 0 (split_on_from "010"%char description EmptyString).

(** Whether a string contains a given character. *)
Fixpoint has_char (c : ascii) (s : string) : bool :=
  match s with
  | EmptyString => false
  | String d r => Ascii.eqb d c || has_char c r
  end.

(** The total number of seconds a countdown shows. *)
Definition displayed_seconds (s : CountdownState) : Z :=
  days s * 86400 + hrs s * 3600 + mins s * 60 + secs s.

(** Three images, for the carousel examples. *)
Definition three_images : list string := ["a"; "b"; "c"]%string.

(** * Properties *)

Example iso_date_parse_2025_01_10 :
  iso_date_parse "2025-01-10" = Some 1736467200000.
Proof. reflexivity. Qed.

Example split_colon_example :
  split_colon_from "14:00:30" EmptyString = ["14"; "00"; "30"]%string.
Proof. reflexivity. Qed.

(** Spec scenario: target 2025-01-10 14:00, now 2025-01-08T14:00:00. *)
Example countdown_two_days :
  calculateTimeLeft_utc (Some "2025-01-10"%string) (Some "14:00"%string)
    (1736467200000 - 2 * msPerDay + 14 * msPerHour)
  = {| days := 2; hrs := 0; mins := 0; secs := 0; isExpired := false |}.
Proof. reflexivity. Qed.

Section CountdownProofs.

Variable ToNumber : string -> option Q.
Variable Date_parse : string -> option Z.
Variable offset_of_utc : Z -> Z.
Variable offset_of_local : Z -> Z.

Local Abbreviation body_of :=
  (calculateTimeLeft_body ToNumber Date_parse offset_of_utc offset_of_local).
Local Abbreviation countdown_of :=
  (calculateTimeLeft ToNumber Date_parse offset_of_utc offset_of_local).
Local Abbreviation target_of :=
  (parse_target ToNumber Date_parse offset_of_utc offset_of_local).

Lemma rem_is_mod_pos (a b : Z) : 0 <= a -> 0 < b -> Z.rem a b = a mod b.
Proof. intros Ha Hb. apply Z.rem_mod_nonneg; lia. Qed.

Lemma div_range (x m k : Z) : 0 < m -> 0 <= x < k * m -> 0 <= x / m < k.
Proof.
  intros Hm Hx. split.
  - apply Z.div_pos; lia.
  - apply Z.div_lt_upper_bound; lia.
Qed.

Lemma expired_state_wf : CountdownState_wf expired_state.
Proof. unfold CountdownState_wf; simpl; repeat split; lia. Qed.

Lemma decompose_wf (d : Z) : 0 < d -> CountdownState_wf (decompose d).
Proof.
  intro Hd. unfold CountdownState_wf, decompose; simpl.
  unfold msPerDay, msPerHour, msPerMinute, msPerSecond.
  rewrite !rem_is_mod_pos by lia.
  pose proof (Z.mod_pos_bound d (1000 * 60 * 60 * 24) ltac:(lia)).
  pose proof (Z.mod_pos_bound d (1000 * 60 * 60) ltac:(lia)).
  pose proof (Z.mod_pos_bound d (1000 * 60) ltac:(lia)).
  pose proof (div_range (d mod (1000 * 60 * 60 * 24)) (1000 * 60 * 60) 24
                ltac:(lia) ltac:(lia)).
  pose proof (div_range (d mod (1000 * 60 * 60)) (1000 * 60) 60
                ltac:(lia) ltac:(lia)).
  pose proof (div_range (d mod (1000 * 60)) 1000 60 ltac:(lia) ltac:(lia)).
  repeat split; try lia.
  all: first [apply Z.div_pos; lia | discriminate].
Qed.

(** The seconds of the decomposition add up to the whole seconds of
    [d]. *)
Lemma decompose_total_seconds (d : Z) : 0 <= d ->
  d / 86400000 * 86400 + d mod 86400000 / 3600000 * 3600
  + d mod 3600000 / 60000 * 60 + d mod 60000 / 1000 = d / 1000.
Proof.
  intro Hd.
  pose proof (Z.div_mod d 86400000 ltac:(lia)).
  pose proof (Z.mod_pos_bound d 86400000 ltac:(lia)).
  pose proof (Z.div_mod d 3600000 ltac:(lia)).
  pose proof (Z.mod_pos_bound d 3600000 ltac:(lia)).
  pose proof (Z.div_mod d 60000 ltac:(lia)).
  pose proof (Z.mod_pos_bound d 60000 ltac:(lia)).
  pose proof (Z.div_mod d 1000 ltac:(lia)).
  pose proof (Z.mod_pos_bound d 1000 ltac:(lia)).
  pose proof (Z.div_mod (d mod 86400000) 3600000 ltac:(lia)).
  pose proof (Z.mod_pos_bound (d mod 86400000) 3600000 ltac:(lia)).
  pose proof (Z.div_mod (d mod 3600000) 60000 ltac:(lia)).
  pose proof (Z.mod_pos_bound (d mod 3600000) 60000 ltac:(lia)).
  pose proof (Z.div_mod (d mod 60000) 1000 ltac:(lia)).
  pose proof (Z.mod_pos_bound (d mod 60000) 1000 ltac:(lia)).
  lia.
Qed.

(** The three outcomes of the [try] block. *)
Lemma body_cases (ed et : option string) (now : Z) :
  body_of ed et now = inr expired_state
  \/ (exists d, 0 < d /\ body_of ed et now = inr (decompose d)).
Proof.
  unfold calculateTimeLeft_body.
  destruct (negb (truthy ed) || negb (truthy et)) eqn:Hg; [now left|].
  destruct (truthy et) eqn:Het; [|destruct (negb (truthy ed)); discriminate].
  destruct et as [s|]; [|discriminate].
  unfold parse_target, js_split_colon.
  destruct (time_fields ToNumber (split_colon_from s EmptyString)) as [h m].
  destruct (setHours _ _ _ _ _ _ _) as [t|]; [|now left].
  destruct (t - now <=? 0) eqn:Hd; [now left|].
  right. exists (t - now). split; [lia | reflexivity].
Qed.

(** ** C1 *)

(** C1: for valid inputs whose target instant lies [difference > 0] ms
    after [now], the countdown is not expired and holds [difference]
    floor-divided into days, hours, minutes and seconds, each level taken
    from the remainder of the previous one; its fields add up to
    [floor(difference / 1000)] seconds. *)
Theorem calculateTimeLeft_positive_difference
  (ed et : option string) (now T : Z) :
  truthy ed = true -> truthy et = true -> target_of ed et = inr (Some T) ->
  0 < T - now ->
  let s := countdown_of ed et now in
  s = {| days := (T - now) / 86400000;
         hrs := (T - now) mod 86400000 / 3600000;
         mins := (T - now) mod 3600000 / 60000;
         secs := (T - now) mod 60000 / 1000;
         isExpired := false |}
  /\ days s * 86400 + hrs s * 3600 + mins s * 60 + secs s = (T - now) / 1000.
Proof.
  intros Hd Ht Htg Hpos s.
  assert (Hs : s = decompose (T - now)).
  { subst s. unfold calculateTimeLeft, calculateTimeLeft_body.
    rewrite Hd, Ht, Htg. simpl.
    destruct (T - now <=? 0) eqn:E; [lia | reflexivity]. }
  assert (Hdec : decompose (T - now) =
    {| days := (T - now) / 86400000;
       hrs := (T - now) mod 86400000 / 3600000;
       mins := (T - now) mod 3600000 / 60000;
       secs := (T - now) mod 60000 / 1000;
       isExpired := false |}).
  { unfold decompose, msPerDay, msPerHour, msPerMinute, msPerSecond.
    rewrite !rem_is_mod_pos by lia. reflexivity. }
  rewrite Hs, Hdec. split; [reflexivity|].
  simpl. apply decompose_total_seconds. lia.
Qed.

(** ** C2 *)

(** C2: for valid inputs with [now] at or after the target instant the
    countdown is exactly [{0, 0, 0, 0, isExpired: true}]. *)
Theorem calculateTimeLeft_past_target
  (ed et : option string) (now T : Z) :
  truthy ed = true -> truthy et = true -> target_of ed et = inr (Some T) ->
  T - now <= 0 ->
  countdown_of ed et now = expired_state.
Proof.
  intros Hd Ht Htg Hle.
  unfold calculateTimeLeft, calculateTimeLeft_body.
  rewrite Hd, Ht, Htg. simpl.
  destruct (T - now <=? 0) eqn:E; [reflexivity | lia].
Qed.

(** ** C3 *)

(** C3 (amended): the countdown is the expired state when [eventDate] or
    [eventTime] is absent or empty, when the date does not parse, or when
    the hour or minute field of [eventTime] ([Number] of the first two
    [':']-separated parts) is not a finite number, a missing minute field
    included.  Out-of-range hours or minutes are not in this list:
    [setHours] rolls them over. *)
Theorem calculateTimeLeft_invalid_input_expired
  (ed et : option string) (now : Z) :
  truthy ed = false \/ truthy et = false
  \/ new_Date Date_parse ed = None
  \/ (exists s, et = Some s /\
        (fst (time_fields ToNumber (split_colon_from s EmptyString)) = None
         \/ snd (time_fields ToNumber (split_colon_from s EmptyString)) = None)) ->
  countdown_of ed et now = expired_state.
Proof.
  intro H. unfold calculateTimeLeft, calculateTimeLeft_body.
  destruct (truthy ed) eqn:Hd; [|reflexivity].
  destruct (truthy et) eqn:Ht; [|reflexivity].
  simpl. destruct et as [s|]; [|discriminate].
  unfold parse_target, js_split_colon.
  destruct (time_fields ToNumber (split_colon_from s EmptyString))
    as [h m] eqn:Hf.
  assert (Hnone : setHours offset_of_utc offset_of_local
                    (new_Date Date_parse ed) h m (Some 0%Q) (Some 0%Q) = None).
  { destruct H as [H|[H|[H|[s' [Hs' Hfm]]]]]; try discriminate.
    - rewrite H. reflexivity.
    - injection Hs' as <-. rewrite Hf in Hfm. simpl in Hfm.
      unfold setHours. destruct (new_Date Date_parse ed); [|reflexivity].
      destruct Hfm as [-> | ->]; [reflexivity|].
      destruct h; reflexivity. }
  rewrite Hnone. reflexivity.
Qed.

(** ** C4 *)

(** C4: for every input, malformed ones included, no exception escapes
    the [try] block, and the computation yields a well-formed
    [CountdownState]. *)
Theorem calculateTimeLeft_never_throws (ed et : option string) (now : Z) :
  (forall e, body_of ed et now <> inl e)
  /\ CountdownState_wf (countdown_of ed et now).
Proof.
  unfold calculateTimeLeft.
  destruct (body_cases ed et now) as [-> | [d [Hd ->]]].
  - split; [discriminate | apply expired_state_wf].
  - split; [discriminate | apply decompose_wf; exact Hd].
Qed.

(** ** C5 *)

(** C5: every state the countdown computation produces has [days >= 0],
    [hrs] in 0..23, [mins] and [secs] in 0..59, and all four zero when
    [isExpired] holds. *)
Theorem calculateTimeLeft_wf (ed et : option string) (now : Z) :
  CountdownState_wf (countdown_of ed et now).
Proof.
  unfold calculateTimeLeft.
  destruct (body_cases ed et now) as [-> | [d [Hd ->]]].
  - apply expired_state_wf.
  - apply decompose_wf. exact Hd.
Qed.

End CountdownProofs.

(** C3 counterexample: the time ["25:00"] is not rejected; [setHours]
    reads hour 25 as 01:00 of the next day, and at midnight of the target
    date the countdown shows 1 day 1 hour, not the expired state. *)
Lemma calculateTimeLeft_hour_25_counterexample :
  calculateTimeLeft_utc (Some "2025-01-10"%string) (Some "25:00"%string)
    1736467200000
  = {| days := 1; hrs := 1; mins := 0; secs := 0; isExpired := false |}
  /\ calculateTimeLeft_utc (Some "2025-01-10"%string) (Some "25:00"%string)
       1736467200000 <> expired_state.
Proof. split; [reflexivity | discriminate]. Qed.

Lemma calculateTimeLeft_positive_difference_witness :
  let s := calculateTimeLeft_utc (Some "2025-01-10"%string)
             (Some "14:00"%string) 1736463539000 in
  s = {| days := (1736517600000 - 1736463539000) / 86400000;
         hrs := (1736517600000 - 1736463539000) mod 86400000 / 3600000;
         mins := (1736517600000 - 1736463539000) mod 3600000 / 60000;
         secs := (1736517600000 - 1736463539000) mod 60000 / 1000;
         isExpired := false |}
  /\ days s * 86400 + hrs s * 3600 + mins s * 60 + secs s
     = (1736517600000 - 1736463539000) / 1000.
Proof.
  apply (calculateTimeLeft_positive_difference decimal_ToNumber iso_date_parse
           utc_offset utc_offset (Some "2025-01-10"%string)
           (Some "14:00"%string) 1736463539000 1736517600000);
    vm_compute; reflexivity.
Defined.

Lemma calculateTimeLeft_past_target_witness :
  calculateTimeLeft_utc (Some "2025-01-10"%string) (Some "14:00"%string)
    1736517600000 = expired_state.
Proof.
  apply (calculateTimeLeft_past_target decimal_ToNumber iso_date_parse
           utc_offset utc_offset (Some "2025-01-10"%string)
           (Some "14:00"%string) 1736517600000 1736517600000);
    vm_compute; try reflexivity; discriminate.
Defined.

Lemma calculateTimeLeft_invalid_input_expired_witness :
  calculateTimeLeft_utc (Some "2025-01-10"%string) (Some "14"%string) 0
  = expired_state.
Proof.
  apply (calculateTimeLeft_invalid_input_expired decimal_ToNumber
           iso_date_parse utc_offset utc_offset (Some "2025-01-10"%string)
           (Some "14"%string) 0).
  right; right; right. exists "14"%string. split; [reflexivity|].
  right. reflexivity.
Defined.

(** ** The carousel *)

Module Carousel.

Lemma js_rem_small (a n : Z) : 0 <= a < n -> js_rem a n = Some a.
Proof.
  intro H. unfold js_rem. destruct (n =? 0) eqn:E; [lia|].
  rewrite Z.rem_small by lia. reflexivity.
Qed.

Lemma js_rem_self (n : Z) : 0 < n -> js_rem n n = Some 0.
Proof.
  intro H. unfold js_rem. destruct (n =? 0) eqn:E; [lia|].
  rewrite Z.rem_same by lia. reflexivity.
Qed.

Lemma next_update_nonneg (N i : Z) : 0 < N -> 0 <= i ->
  nextImage_update N (Some i) = Some ((i + 1) mod N).
Proof.
  intros HN Hi. simpl. unfold js_rem.
  destruct (N =? 0) eqn:E; [lia|].
  rewrite Z.rem_mod_nonneg by lia. reflexivity.
Qed.

Lemma next_update_valid (N : Z) (idx : option Z) : 0 < N ->
  index_valid N idx -> index_valid N (nextImage_update N idx).
Proof.
  intros HN Hv. destruct idx as [i|]; [|contradiction].
  simpl in Hv. rewrite next_update_nonneg by lia. simpl.
  apply Z.mod_pos_bound. exact HN.
Qed.

Lemma previous_update_valid (N : Z) (idx : option Z) : 0 < N ->
  index_valid N idx -> index_valid N (previousImage_update N idx).
Proof.
  intros HN Hv. destruct idx as [i|]; [|contradiction].
  simpl in *. destruct (i =? 0) eqn:E; simpl; lia.
Qed.

(** C6: with [N > 0] images and a current index [i >= 0], [nextImage]
    sets the index to [(i + 1) mod N] and [previousImage] to [N - 1] when
    [i = 0] and to [i - 1] otherwise; with three images, three advances
    from index 0 give 1, 2, 0, and one retreat from 0 gives 2. *)
Theorem nextImage_previousImage_spec
  (imgs : list string) (st : CardState) (i : Z) :
  let N := Z.of_nat (length imgs) in
  0 < N -> currentImageIndex st = Some i -> 0 <= i ->
  (currentImageIndex (nextImage imgs st) = Some ((i + 1) mod N)
   /\ currentImageIndex (previousImage imgs st)
      = Some (if i =? 0 then N - 1 else i - 1))
  /\ (currentImageIndex (nextImage three_images initial_card) = Some 1
      /\ currentImageIndex (nextImage three_images
           (nextImage three_images initial_card)) = Some 2
      /\ currentImageIndex (nextImage three_images (nextImage three_images
           (nextImage three_images initial_card))) = Some 0
      /\ currentImageIndex (previousImage three_images initial_card) = Some 2).
Proof.
  intros N HN Hst Hi. split; [|repeat split].
  unfold nextImage, previousImage; simpl. rewrite Hst. split.
  - apply next_update_nonneg; assumption.
  - simpl. destruct (i =? 0); reflexivity.
Qed.

(** C7: with [N > 0] images and a starting index in [0, N), any sequence
    of advances and retreats keeps the index in [0, N). *)
Theorem run_nav_index_valid (N : Z) (ops : list nav_op) (idx : option Z) :
  0 < N -> index_valid N idx -> index_valid N (run_nav N ops idx).
Proof.
  intros HN. revert idx.
  induction ops as [|op ops IH]; intros idx Hv; simpl; [exact Hv|].
  destruct op; apply IH.
  - apply next_update_valid; assumption.
  - apply previous_update_valid; assumption.
Qed.

Lemma ui_step_no_images (st st1 : CardState) (ev : ui_event) :
  ui_step [] st ev = Some st1 ->
  ev <> ClickNext /\ ev <> ClickPrevious
  /\ currentImageIndex st1 = currentImageIndex st.
Proof.
  intro H. destruct ev; simpl in H; rewrite ?andb_false_r in H;
    repeat match type of H with
           | context [if ?b then _ else _] => destruct b
           end;
    try discriminate; inversion H; subst;
    (split; [|split]); first [reflexivity | intro E; discriminate E].
Qed.

(** C8: with no images, no run of the component's events ever fires the
    next or previous arrow (those controls are not rendered), so the
    modulo of [nextImage] is never computed and the index never
    changes. *)
Theorem no_images_no_navigation (st st' : CardState) (evs : list ui_event) :
  ui_run [] st evs = Some st' ->
  ~ In ClickNext evs /\ ~ In ClickPrevious evs
  /\ currentImageIndex st' = currentImageIndex st.
Proof.
  revert st. induction evs as [|ev evs IH]; intros st Hrun.
  - simpl in Hrun. injection Hrun as <-. simpl. tauto.
  - simpl in Hrun. destruct (ui_step [] st ev) as [st1|] eqn:Hs;
      [|discriminate].
    destruct (ui_step_no_images _ _ _ Hs) as [Hn [Hp Hi1]].
    destruct (IH _ Hrun) as [Hn' [Hp' Hi']].
    simpl. split; [|split].
    + intros [E|E]; [congruence | tauto].
    + intros [E|E]; [congruence | tauto].
    + congruence.
Qed.

(** C9: [toggleImageFullscreen] flips [isImageFullscreen] and leaves every
    other field of the component state unchanged. *)
Theorem toggleImageFullscreen_frame (st : CardState) :
  isImageFullscreen (toggleImageFullscreen st) = negb (isImageFullscreen st)
  /\ currentImageIndex (toggleImageFullscreen st) = currentImageIndex st
  /\ isExpanded (toggleImageFullscreen st) = isExpanded st
  /\ countdown (toggleImageFullscreen st) = countdown st
  /\ config_loaded (toggleImageFullscreen st) = config_loaded st.
Proof. repeat split. Qed.

(** C10: with [N > 0] images and an index in [0, N), advancing then
    retreating, or retreating then advancing, returns to the index. *)
Theorem advance_retreat_inverse (N i : Z) :
  0 < N -> 0 <= i < N ->
  previousImage_update N (nextImage_update N (Some i)) = Some i
  /\ nextImage_update N (previousImage_update N (Some i)) = Some i.
Proof.
  intros HN Hi. simpl. split.
  - destruct (Z.eq_dec (i + 1) N) as [E|E].
    + rewrite E, js_rem_self by lia. simpl. f_equal. lia.
    + rewrite js_rem_small by lia. simpl.
      destruct (i + 1 =? 0) eqn:E'; [lia|]. f_equal. lia.
  - destruct (i =? 0) eqn:E.
    + simpl. replace (N - 1 + 1) with N by lia.
      rewrite js_rem_self by lia. f_equal. lia.
    + simpl. replace (i - 1 + 1) with i by lia.
      apply js_rem_small. lia.
Qed.

Lemma nextImage_previousImage_spec_witness :
  currentImageIndex (nextImage three_images initial_card) = Some ((0 + 1) mod 3)
  /\ currentImageIndex (previousImage three_images initial_card)
     = Some (if 0 =? 0 then 3 - 1 else 0 - 1).
Proof.
  destruct (nextImage_previousImage_spec three_images initial_card 0
              ltac:(vm_compute; reflexivity) eq_refl ltac:(lia)) as [H _].
  exact H.
Defined.

Lemma run_nav_index_valid_witness :
  index_valid 3 (run_nav 3 [Advance; Advance; Retreat; Advance] (Some 0)).
Proof.
  apply (run_nav_index_valid 3 [Advance; Advance; Retreat; Advance] (Some 0));
    simpl; lia.
Defined.

Lemma no_images_no_navigation_witness :
  ~ In ClickNext [ConfigLoaded; ClickExpand; Tick expired_state]
  /\ ~ In ClickPrevious [ConfigLoaded; ClickExpand; Tick expired_state]
  /\ currentImageIndex
       (set_countdown (set_isExpanded (set_config initial_card) true)
          expired_state)
     = currentImageIndex initial_card.
Proof.
  apply (no_images_no_navigation initial_card
           (set_countdown (set_isExpanded (set_config initial_card) true)
              expired_state)
           [ConfigLoaded; ClickExpand; Tick expired_state]).
  reflexivity.
Defined.

Lemma advance_retreat_inverse_witness :
  previousImage_update 3 (nextImage_update 3 (Some 2)) = Some 2
  /\ nextImage_update 3 (previousImage_update 3 (Some 2)) = Some 2.
Proof. apply (advance_retreat_inverse 3 2); lia. Defined.

End Carousel.

(** ** The countdown over time and the time-of-day string *)

Module CountdownExtra.

Lemma string_app_assoc (a b c : string) : ((a ++ b) ++ c)%string = (a ++ (b ++ c))%string.
Proof. induction a as [|x a IH]; simpl; [reflexivity | now rewrite IH]. Qed.

Lemma string_app_nil_r (a : string) : (a ++ EmptyString)%string = a.
Proof. induction a as [|x a IH]; simpl; [reflexivity | now rewrite IH]. Qed.

(** Splitting across a colon-free prefix. *)
Lemma split_colon_app (a s acc : string) :
  has_char ":"%char a = false ->
  split_colon_from (a ++ s) acc = split_colon_from s (acc ++ a).
Proof.
  revert acc. induction a as [|c a IH]; intros acc Ha; simpl.
  - now rewrite string_app_nil_r.
  - simpl in Ha. apply orb_false_iff in Ha as [Hc Ha].
    rewrite Hc, IH by exact Ha. now rewrite string_app_assoc.
Qed.

Lemma decompose_not_expired (d : Z) : decompose d <> expired_state.
Proof. unfold decompose. discriminate. Qed.

Lemma decompose_displayed (d : Z) : 0 < d ->
  displayed_seconds (decompose d) = d / 1000.
Proof.
  intro Hd. unfold displayed_seconds, decompose; cbn [days hrs mins secs].
  unfold msPerDay, msPerHour, msPerMinute, msPerSecond.
  rewrite !rem_is_mod_pos by lia. apply decompose_total_seconds. lia.
Qed.

Section Engine.

Variable ToNumber : string -> option Q.
Variable Date_parse : string -> option Z.
Variable offset_of_utc : Z -> Z.
Variable offset_of_local : Z -> Z.

Local Abbreviation countdown_of :=
  (calculateTimeLeft ToNumber Date_parse offset_of_utc offset_of_local).
Local Abbreviation target_of :=
  (parse_target ToNumber Date_parse offset_of_utc offset_of_local).

(** How the countdown depends on [now]: either it is expired at every
    [now], or there is a target [T] it counts down to. *)
Lemma countdown_now_cases (ed et : option string) :
  (forall now, countdown_of ed et now = expired_state)
  \/ (exists T, truthy ed = true /\ truthy et = true
        /\ target_of ed et = inr (Some T)
        /\ forall now, countdown_of ed et now
             = if T - now <=? 0 then expired_state else decompose (T - now)).
Proof.
  unfold calculateTimeLeft, calculateTimeLeft_body.
  destruct (truthy ed) eqn:Hd; [|left; reflexivity].
  destruct (truthy et) eqn:Ht; [|left; reflexivity].
  simpl. destruct et as [s|]; [|discriminate].
  destruct (parse_target _ _ _ _ ed (Some s)) as [e|[T|]] eqn:Hp.
  - unfold parse_target in Hp. simpl in Hp. discriminate.
  - right. exists T. repeat split; try reflexivity.
    intro now. destruct (T - now <=? 0); reflexivity.
  - left. reflexivity.
Qed.

Lemma displayed_expired : displayed_seconds expired_state = 0.
Proof. reflexivity. Qed.

(** Once the countdown shows the expired state, it shows it at every later
    [now]. *)
Theorem expiry_is_permanent (ed et : option string) (now now' : Z) :
  countdown_of ed et now = expired_state -> now <= now' ->
  countdown_of ed et now' = expired_state.
Proof.
  intros He Hle.
  destruct (countdown_now_cases ed et) as [Hall | [T [_ [_ [_ Hall]]]]].
  - apply Hall.
  - rewrite Hall in *. destruct (T - now <=? 0) eqn:E.
    + destruct (T - now' <=? 0) eqn:E'; [reflexivity | lia].
    + exfalso. exact (decompose_not_expired _ He).
Qed.

(** The time shown never grows as [now] advances. *)
Theorem displayed_seconds_monotone (ed et : option string) (now now' : Z) :
  now <= now' ->
  displayed_seconds (countdown_of ed et now')
  <= displayed_seconds (countdown_of ed et now).
Proof.
  intro Hle.
  destruct (countdown_now_cases ed et) as [Hall | [T [_ [_ [_ Hall]]]]].
  - rewrite !Hall. lia.
  - rewrite !Hall.
    destruct (T - now' <=? 0) eqn:E'; destruct (T - now <=? 0) eqn:E.
    + lia.
    + rewrite displayed_expired, decompose_displayed by lia.
      apply Z.div_pos; lia.
    + lia.
    + rewrite !decompose_displayed by lia.
      apply Z.div_le_mono; lia.
Qed.

(** While the target is more than [k] seconds away, [k] timer ticks of
    1000 ms take exactly [k] seconds off the time shown. *)
Theorem ticks_count_down (ed et : option string) (now T k : Z) :
  truthy ed = true -> truthy et = true -> target_of ed et = inr (Some T) ->
  0 <= k -> 1000 * k < T - now ->
  displayed_seconds (countdown_of ed et (now + 1000 * k))
  = displayed_seconds (countdown_of ed et now) - k.
Proof.
  intros Hd Ht Hp Hk Hlt.
  unfold calculateTimeLeft, calculateTimeLeft_body. rewrite Hd, Ht, Hp.
  cbn [negb orb].
  destruct (T - (now + 1000 * k) <=? 0) eqn:E1; [lia|].
  destruct (T - now <=? 0) eqn:E2; [lia|].
  rewrite !decompose_displayed by lia.
  replace (T - (now + 1000 * k)) with (T - now + (- k) * 1000) by lia.
  rewrite (Z.div_add (T - now) (- k) 1000) by lia. lia.
Qed.

(** The countdown is running (not expired) exactly when both props are
    non-empty, they combine into a valid target, and [now] is before
    it. *)
Theorem running_iff_future_target (ed et : option string) (now : Z) :
  isExpired (countdown_of ed et now) = false <->
  truthy ed = true /\ truthy et = true
  /\ exists T, target_of ed et = inr (Some T) /\ now < T.
Proof.
  split.
  - intro H.
    destruct (countdown_now_cases ed et) as [Hall | [T [Hd [Ht [Hp Hall]]]]].
    + rewrite Hall in H. discriminate.
    + rewrite Hall in H. repeat split; try assumption. exists T. split; [exact Hp|].
      destruct (T - now <=? 0) eqn:E; [discriminate | lia].
  - intros [Hd [Ht [T [Hp Hlt]]]].
    unfold calculateTimeLeft, calculateTimeLeft_body. rewrite Hd, Ht, Hp. simpl.
    destruct (T - now <=? 0) eqn:E; [lia | reflexivity].
Qed.

(** Only the first two [':']-separated fields of [eventTime] count: a time
    ["HH:MM:rest"] gives the same countdown as ["HH:MM"]. *)
Theorem extra_time_fields_ignored (ed : option string) (a b rest : string)
  (now : Z) :
  has_char ":"%char a = false -> has_char ":"%char b = false ->
  countdown_of ed (Some (a ++ ":" ++ b ++ ":" ++ rest)%string) now
  = countdown_of ed (Some (a ++ ":" ++ b)%string) now.
Proof.
  intros Ha Hb.
  assert (Hsplit1 : split_colon_from (a ++ ":" ++ b ++ ":" ++ rest) EmptyString
                    = a :: b :: split_colon_from rest EmptyString).
  { rewrite split_colon_app by exact Ha. simpl.
    rewrite split_colon_app by exact Hb. simpl. reflexivity. }
  assert (Hsplit2 : split_colon_from (a ++ ":" ++ b) EmptyString = [a; b]).
  { rewrite split_colon_app by exact Ha. simpl.
    rewrite <- (string_app_nil_r b) at 1.
    rewrite split_colon_app by exact Hb. simpl. reflexivity. }
  assert (Htr : forall x y, truthy (Some (x ++ String ":" y)%string) = true).
  { intros x y. destruct x; reflexivity. }
  unfold calculateTimeLeft, calculateTimeLeft_body, parse_target, js_split_colon.
  simpl (":" ++ _)%string. rewrite !Htr.
  simpl (":" ++ _)%string in Hsplit1, Hsplit2.
  rewrite Hsplit1, Hsplit2. reflexivity.
Qed.

End Engine.


Lemma expiry_is_permanent_witness :
  calculateTimeLeft_utc (Some "2025-01-10"%string) (Some "14:00"%string)
    (1736517600000 + 5000) = expired_state.
Proof.
  apply (expiry_is_permanent decimal_ToNumber iso_date_parse utc_offset
           utc_offset _ _ 1736517600000); [vm_compute; reflexivity | lia].
Defined.

Lemma displayed_seconds_monotone_witness :
  displayed_seconds (calculateTimeLeft_utc (Some "2025-01-10"%string)
                       (Some "14:00"%string) 1736500000000)
  <= displayed_seconds (calculateTimeLeft_utc (Some "2025-01-10"%string)
                          (Some "14:00"%string) 1736400000000).
Proof.
  apply (displayed_seconds_monotone decimal_ToNumber iso_date_parse
           utc_offset utc_offset); lia.
Defined.

Lemma ticks_count_down_witness :
  displayed_seconds (calculateTimeLeft_utc (Some "2025-01-10"%string)
                       (Some "14:00"%string) (1736463539000 + 1000 * 5))
  = displayed_seconds (calculateTimeLeft_utc (Some "2025-01-10"%string)
                         (Some "14:00"%string) 1736463539000) - 5.
Proof.
  apply (ticks_count_down decimal_ToNumber iso_date_parse utc_offset
           utc_offset _ _ 1736463539000 1736517600000 5);
    first [reflexivity | vm_compute; reflexivity | lia].
Defined.

Lemma extra_time_fields_ignored_witness :
  calculateTimeLeft_utc (Some "2025-01-10"%string)
    (Some ("14" ++ ":" ++ "00" ++ ":" ++ "30")%string) 1736463539000
  = calculateTimeLeft_utc (Some "2025-01-10"%string)
      (Some ("14" ++ ":" ++ "00")%string) 1736463539000.
Proof.
  apply (extra_time_fields_ignored decimal_ToNumber iso_date_parse
           utc_offset utc_offset); reflexivity.
Defined.


End CountdownExtra.

(** ** The carousel inside the component *)

Module CarouselExtra.


Lemma previous_update_mod (N i : Z) : 0 < N -> 0 <= i < N ->
  previousImage_update N (Some i) = Some ((i - 1) mod N).
Proof.
  intros HN Hi. simpl. destruct (i =? 0) eqn:E.
  - apply Z.eqb_eq in E. subst i. f_equal.
    rewrite <- (Z.mod_small (N - 1) N) by lia.
    replace (0 - 1) with (N - 1 + (-1) * N) by lia.
    rewrite Z.mod_add by lia. reflexivity.
  - apply Z.eqb_neq in E. f_equal. rewrite Z.mod_small; lia.
Qed.

(** [k] advances from a valid index [i] land on [(i + k) mod N], and [k]
    retreats on [(i - k) mod N]; in particular [N] of either return to
    [i]. *)
Theorem run_nav_repeat (N i : Z) (k : nat) :
  0 < N -> 0 <= i < N ->
  run_nav N (repeat Advance k) (Some i) = Some ((i + Z.of_nat k) mod N)
  /\ run_nav N (repeat Retreat k) (Some i) = Some ((i - Z.of_nat k) mod N).
Proof.
  intros HN. revert i. induction k as [|k IH]; intros i Hi.
  - simpl. rewrite !Z.mod_small by lia. rewrite Z.add_0_r, Z.sub_0_r.
    split; reflexivity.
  - pose proof (Z.mod_pos_bound (i + 1) N HN) as Hb1.
    pose proof (Z.mod_pos_bound (i - 1) N HN) as Hb2.
    cbn [repeat run_nav]. split.
    + rewrite Carousel.next_update_nonneg by lia.
      rewrite (proj1 (IH _ Hb1)). f_equal.
      rewrite Z.add_mod_idemp_l by lia. f_equal. lia.
    + rewrite previous_update_mod by lia.
      rewrite (proj2 (IH _ Hb2)). f_equal.
      replace ((i - 1) mod N - Z.of_nat k) with ((i - 1) mod N + - Z.of_nat k)
        by lia.
      rewrite Z.add_mod_idemp_l by lia. f_equal. lia.
Qed.

Lemma ui_step_index_valid (imgs : list string) (st st1 : CardState)
  (ev : ui_event) :
  (0 < length imgs)%nat ->
  index_valid (Z.of_nat (length imgs)) (currentImageIndex st) ->
  ui_step imgs st ev = Some st1 ->
  index_valid (Z.of_nat (length imgs)) (currentImageIndex st1).
Proof.
  intros Hn Hv H. destruct ev; simpl in H;
    repeat match type of H with
           | context [if ?b then _ else _] => destruct b
           end;
    try discriminate; inversion H; subst; simpl; try exact Hv.
  - apply Carousel.previous_update_valid; [lia | exact Hv].
  - apply Carousel.next_update_valid; [lia | exact Hv].
Qed.

(** With at least one image, every run of the component's events keeps
    [currentImageIndex] a valid index of [allImages]. *)
Theorem ui_run_index_valid (imgs : list string) (st st' : CardState)
  (evs : list ui_event) :
  (0 < length imgs)%nat ->
  index_valid (Z.of_nat (length imgs)) (currentImageIndex st) ->
  ui_run imgs st evs = Some st' ->
  index_valid (Z.of_nat (length imgs)) (currentImageIndex st').
Proof.
  intros Hn. revert st. induction evs as [|ev evs IH]; intros st Hv Hrun.
  - simpl in Hrun. injection Hrun as <-. exact Hv.
  - simpl in Hrun. destruct (ui_step imgs st ev) as [st1|] eqn:Hs;
      [|discriminate].
    apply (IH st1); [|exact Hrun].
    exact (ui_step_index_valid imgs st st1 ev Hn Hv Hs).
Qed.

Lemma ui_step_single_image (imgs : list string) (st st1 : CardState)
  (ev : ui_event) :
  (length imgs <= 1)%nat ->
  ui_step imgs st ev = Some st1 ->
  ev <> ClickNext /\ ev <> ClickPrevious
  /\ currentImageIndex st1 = currentImageIndex st.
Proof.
  intros Hn H.
  assert (Hm : (1 <? length imgs)%nat = false) by (apply Nat.ltb_ge; lia).
  destruct ev; simpl in H; rewrite ?Hm, ?andb_false_r in H;
    repeat match type of H with
           | context [if ?b then _ else _] => destruct b
           end;
    try discriminate; inversion H; subst;
    (split; [|split]); first [reflexivity | intro E; discriminate E].
Qed.

(** With at most one image, [hasMultipleImages] is false: no run of the
    component's events fires an arrow, and the index never changes. *)
Theorem at_most_one_image_no_navigation (imgs : list string)
  (st st' : CardState) (evs : list ui_event) :
  (length imgs <= 1)%nat ->
  ui_run imgs st evs = Some st' ->
  ~ In ClickNext evs /\ ~ In ClickPrevious evs
  /\ currentImageIndex st' = currentImageIndex st.
Proof.
  intros Hn. revert st. induction evs as [|ev evs IH]; intros st Hrun.
  - simpl in Hrun. injection Hrun as <-. simpl. tauto.
  - simpl in Hrun. destruct (ui_step imgs st ev) as [st1|] eqn:Hs;
      [|discriminate].
    destruct (ui_step_single_image imgs st st1 ev Hn Hs) as [Hx [Hp Hi1]].
    destruct (IH _ Hrun) as [Hx' [Hp' Hi']].
    simpl. split; [|split].
    + intros [E|E]; [congruence | tauto].
    + intros [E|E]; [congruence | tauto].
    + congruence.
Qed.

(** While [config] is null the component renders nothing: starting from a
    state without configuration, a run with no [ConfigLoaded] event
    consists of timer ticks only and changes none of the card's
    view state. *)
Theorem nothing_clickable_before_config (imgs : list string)
  (st st' : CardState) (evs : list ui_event) :
  config_loaded st = false -> ~ In ConfigLoaded evs ->
  ui_run imgs st evs = Some st' ->
  Forall (fun ev => exists c, ev = Tick c) evs
  /\ currentImageIndex st' = currentImageIndex st
  /\ isImageFullscreen st' = isImageFullscreen st
  /\ isExpanded st' = isExpanded st
  /\ config_loaded st' = false.
Proof.
  revert st. induction evs as [|ev evs IH]; intros st Hc Hnot Hrun.
  - simpl in Hrun. injection Hrun as <-. repeat split; auto.
  - simpl in Hrun.
    destruct ev; simpl in Hrun; rewrite ?Hc in Hrun; simpl in Hrun;
      try discriminate.
    + exfalso. apply Hnot. left. reflexivity.
    + destruct (IH (set_countdown st c)) as [Hf [H1 [H2 [H3 H4]]]];
        [exact Hc | intro E; apply Hnot; right; exact E | exact Hrun |].
      repeat split; try assumption.
      constructor; [exists c; reflexivity | exact Hf].
Qed.

(** With no images the fullscreen overlay never opens. *)
Theorem no_images_never_fullscreen (st st' : CardState)
  (evs : list ui_event) :
  isImageFullscreen st = false ->
  ui_run [] st evs = Some st' ->
  isImageFullscreen st' = false.
Proof.
  revert st. induction evs as [|ev evs IH]; intros st Hf Hrun.
  - simpl in Hrun. injection Hrun as <-. exact Hf.
  - simpl in Hrun. destruct (ui_step [] st ev) as [st1|] eqn:Hs;
      [|discriminate].
    apply (IH st1); [|exact Hrun].
    destruct ev; simpl in Hs; rewrite ?andb_false_r in Hs;
      repeat match type of Hs with
             | context [if ?b then _ else _] => destruct b
             end;
      try discriminate; inversion Hs; subst; exact Hf.
Qed.

(** Opening the fullscreen view from the card image and closing it with
    its close button gives back the state exactly. *)
Theorem open_then_close_fullscreen (imgs : list string) (st : CardState) :
  config_loaded st = true -> isImageFullscreen st = false ->
  (0 < length imgs)%nat ->
  ui_run imgs st [ClickCardImage; ClickClose] = Some st.
Proof.
  intros Hc Hf Hn. simpl.
  assert (Hlt : (0 <? length imgs)%nat = true) by (apply Nat.ltb_lt; lia).
  rewrite Hc, Hlt. cbn [andb].
  unfold toggleImageFullscreen, set_isImageFullscreen. cbn [config_loaded isImageFullscreen].
  rewrite ?Hc, ?Hf, ?Hlt. cbn [andb negb].
  destruct st; cbn in *; subst; reflexivity.
Qed.

Lemma run_nav_repeat_witness :
  run_nav 3 (repeat Advance 3) (Some 1) = Some ((1 + Z.of_nat 3) mod 3)
  /\ run_nav 3 (repeat Retreat 3) (Some 1) = Some ((1 - Z.of_nat 3) mod 3).
Proof. apply (run_nav_repeat 3 1 3); lia. Defined.

Lemma ui_run_index_valid_witness :
  exists st', ui_run three_images initial_card
    [ConfigLoaded; ClickCardImage; ClickNext; ClickNext; ClickNext;
     ClickPrevious; ClickClose] = Some st'
  /\ index_valid (Z.of_nat (length three_images)) (currentImageIndex st').
Proof.
  eexists. split; [vm_compute; reflexivity|].
  apply (ui_run_index_valid three_images initial_card _
           [ConfigLoaded; ClickCardImage; ClickNext; ClickNext; ClickNext;
            ClickPrevious; ClickClose]);
    [simpl; lia | simpl; lia | vm_compute; reflexivity].
Defined.

Lemma at_most_one_image_no_navigation_witness :
  exists st', ui_run ["a"%string] initial_card
    [ConfigLoaded; ClickCardImage; ClickClose] = Some st'
  /\ ~ In ClickNext [ConfigLoaded; ClickCardImage; ClickClose]
  /\ ~ In ClickPrevious [ConfigLoaded; ClickCardImage; ClickClose]
  /\ currentImageIndex st' = currentImageIndex initial_card.
Proof.
  eexists. split; [vm_compute; reflexivity|].
  apply (at_most_one_image_no_navigation ["a"%string] initial_card);
    [simpl; lia | vm_compute; reflexivity].
Defined.

Lemma nothing_clickable_before_config_witness :
  exists st', ui_run three_images initial_card [Tick expired_state] = Some st'
  /\ Forall (fun ev => exists c, ev = Tick c) [Tick expired_state]
  /\ currentImageIndex st' = currentImageIndex initial_card
  /\ isImageFullscreen st' = isImageFullscreen initial_card
  /\ isExpanded st' = isExpanded initial_card
  /\ config_loaded st' = false.
Proof.
  eexists. split; [vm_compute; reflexivity|].
  apply (nothing_clickable_before_config three_images initial_card);
    [reflexivity | simpl; intros [H|[]]; discriminate H
    | vm_compute; reflexivity].
Defined.

Lemma no_images_never_fullscreen_witness :
  exists st', ui_run [] initial_card [ConfigLoaded; ClickExpand] = Some st'
  /\ isImageFullscreen st' = false.
Proof.
  eexists. split; [vm_compute; reflexivity|].
  apply (no_images_never_fullscreen initial_card _
           [ConfigLoaded; ClickExpand]);
    [reflexivity | vm_compute; reflexivity].
Defined.

Lemma open_then_close_fullscreen_witness :
  ui_run three_images (set_config initial_card) [ClickCardImage; ClickClose]
  = Some (set_config initial_card).
Proof.
  apply (open_then_close_fullscreen three_images (set_config initial_card));
    first [reflexivity | simpl; lia].
Defined.

End CarouselExtra.

(** ** The description paragraphs *)

Module Paragraphs.

Lemma has_char_app (c : ascii) (a b : string) :
  has_char c (a ++ b) = has_char c a || has_char c b.
Proof.
  induction a as [|d a IH]; simpl; [reflexivity|].
  rewrite IH. apply orb_assoc.
Qed.

Lemma list_ascii_app (a b : string) :
  list_ascii_of_string (a ++ b) = list_ascii_of_string a ++ list_ascii_of_string b.
Proof. induction a as [|d a IH]; simpl; [reflexivity | now rewrite IH]. Qed.

(** No piece of [split_on_from sep] contains [sep]. *)
Lemma split_pieces_no_sep (sep : ascii) (s acc e : string) :
  has_char sep acc = false -> In e (split_on_from sep s acc) ->
  has_char sep e = false.
Proof.
  revert acc. induction s as [|c s IH]; intros acc Hacc Hin; simpl in Hin.
  - destruct Hin as [<- | []]. exact Hacc.
  - destruct (Ascii.eqb c sep) eqn:E.
    + destruct Hin as [<- | Hin]; [exact Hacc|].
      apply (IH EmptyString); [reflexivity | exact Hin].
    + apply (IH (acc ++ String c EmptyString)%string); [|exact Hin].
      rewrite has_char_app, Hacc. simpl. now rewrite E.
Qed.

(** Every character of a piece comes from the input. *)
Lemma split_pieces_chars (P : ascii -> Prop) (sep : ascii) (s acc e : string) :
  Forall P (list_ascii_of_string s) -> Forall P (list_ascii_of_string acc) ->
  In e (split_on_from sep s acc) -> Forall P (list_ascii_of_string e).
Proof.
  revert acc. induction s as [|c s IH]; intros acc Hs Hacc Hin; simpl in Hin, Hs.
  - destruct Hin as [<- | []]. exact Hacc.
  - inversion Hs as [|? ? Hc Hs']; subst.
    destruct (Ascii.eqb c sep).
    + destruct Hin as [<- | Hin]; [exact Hacc|].
      apply (IH EmptyString); [exact Hs' | constructor | exact Hin].
    + apply (IH (acc ++ String c EmptyString)%string); [exact Hs' | | exact Hin].
      rewrite list_ascii_app. apply Forall_app. split; [exact Hacc|].
      constructor; [exact Hc | constructor].
Qed.

Lemma split_no_sep (sep : ascii) (s acc : string) :
  has_char sep s = false -> split_on_from sep s acc = [(acc ++ s)%string].
Proof.
  revert acc. induction s as [|c s IH]; intros acc Hs; simpl.
  - now rewrite CountdownExtra.string_app_nil_r.
  - simpl in Hs. apply orb_false_iff in Hs as [Hc Hs]. rewrite Hc, IH by exact Hs.
    now rewrite CountdownExtra.string_app_assoc.
Qed.

Lemma drop_all_space (l : list ascii) :
  Forall (fun c => is_trim_space c = true) l -> drop_trim_space l = [].
Proof.
  induction l as [|c l IH]; intro H; simpl; [reflexivity|].
  inversion H as [|? ? Hc Hl]; subst. rewrite Hc. apply IH. exact Hl.
Qed.

Lemma paragraphs_from_spec (i k : nat) (lines : list string) (p : string) :
  In (k, p) (paragraphs_from i lines) ->
  (i <= k)%nat /\ nth_error lines (k - i) = Some p
  /\ js_trim p <> EmptyString.
Proof.
  revert i. induction lines as [|l lines IH]; intros i Hin; simpl in Hin;
    [contradiction|].
  destruct (negb (String.eqb (js_trim l) EmptyString)) eqn:E.
  - destruct Hin as [Heq | Hin].
    + injection Heq as <- <-. rewrite Nat.sub_diag. simpl.
      split; [lia|]. split; [reflexivity|].
      intro Ht. rewrite Ht in E. discriminate.
    + destruct (IH (S i) Hin) as [Hle [Hn Ht]].
      split; [lia|]. split; [|exact Ht].
      replace (k - i)%nat with (S (k - S i)) by lia. exact Hn.
  - destruct (IH (S i) Hin) as [Hle [Hn Ht]].
    split; [lia|]. split; [|exact Ht].
    replace (k - i)%nat with (S (k - S i)) by lia. exact Hn.
Qed.

Lemma paragraphs_from_keys_nodup (i : nat) (lines : list string) :
  NoDup (map fst (paragraphs_from i lines)).
Proof.
  revert i. induction lines as [|l lines IH]; intro i; simpl; [constructor|].
  destruct (negb (String.eqb (js_trim l) EmptyString)); [|apply IH].
  simpl. constructor; [|apply IH].
  intro Hin. apply in_map_iff in Hin as [[k p] [Hk Hin]]. simpl in Hk. subst k.
  destruct (paragraphs_from_spec (S i) i lines p Hin) as [Hle _]. lia.
Qed.

(** Each rendered [<p>] is the line of the description at its key, its
    text is not blank, and no two share a key. *)
Theorem description_paragraphs_keys (description : string) :
  NoDup (map fst (description_paragraphs description))
  /\ forall k p, In (k, p) (description_paragraphs description) ->
       nth_error (split_on_from "010"%char description EmptyString) k = Some p
       /\ js_trim p <> EmptyString.
Proof.
  split; [apply paragraphs_from_keys_nodup|].
  intros k p Hin. destruct (paragraphs_from_spec 0 k _ p Hin) as [_ [Hn Ht]].
  rewrite Nat.sub_0_r in Hn. split; assumption.
Qed.

(** No rendered paragraph contains a line break. *)
Theorem description_paragraphs_single_line (description : string) (k : nat)
  (p : string) :
  In (k, p) (description_paragraphs description) ->
  has_char "010"%char p = false.
Proof.
  intro Hin. destruct (paragraphs_from_spec 0 k _ p Hin) as [_ [Hn _]].
  apply nth_error_In in Hn.
  exact (split_pieces_no_sep _ _ EmptyString p eq_refl Hn).
Qed.

(** A description made only of white space and line breaks renders no
    paragraph. *)
Theorem blank_description_renders_nothing (description : string) :
  Forall (fun c => is_trim_space c = true) (list_ascii_of_string description) ->
  description_paragraphs description = [].
Proof.
  intro Hs. unfold description_paragraphs.
  assert (Hall : forall l, In l (split_on_from "010"%char description EmptyString) ->
                   js_trim l = EmptyString).
  { intros l Hl.
    pose proof (split_pieces_chars _ _ _ EmptyString l Hs (Forall_nil _) Hl) as Hc.
    unfold js_trim. rewrite (drop_all_space _ Hc). reflexivity. }
  generalize 0%nat. induction (split_on_from "010"%char description EmptyString)
    as [|l lines IH]; intro i; simpl; [reflexivity|].
  rewrite (Hall l (or_introl eq_refl)). simpl.
  apply IH. intros l' Hl'. apply Hall. right. exact Hl'.
Qed.

(** A one-line description that is not blank renders as one paragraph
    with key 0 holding the text as given, surrounding spaces included. *)
Theorem one_line_description (description : string) :
  has_char "010"%char description = false ->
  js_trim description <> EmptyString ->
  description_paragraphs description = [(0%nat, description)].
Proof.
  intros Hn Ht. unfold description_paragraphs.
  rewrite split_no_sep by exact Hn. simpl.
  destruct (String.eqb (js_trim description) EmptyString) eqn:E.
  - apply String.eqb_eq in E. contradiction.
  - reflexivity.
Qed.

Lemma description_paragraphs_single_line_witness :
  has_char "010"%char "world"%string = false.
Proof.
  apply (description_paragraphs_single_line
           ("hello" ++ String "010"%char ("  " ++ String "010"%char "world"))
           2 "world").
  vm_compute. right. left. reflexivity.
Defined.

Lemma blank_description_renders_nothing_witness :
  description_paragraphs
    (String " "%char (String "010"%char (String "009"%char EmptyString)))
  = [].
Proof.
  apply blank_description_renders_nothing. simpl. repeat constructor.
Defined.

Lemma one_line_description_witness :
  description_paragraphs " hi "%string = [(0%nat, " hi "%string)].
Proof.
  apply one_line_description;
    [reflexivity | vm_compute; intro H; discriminate H].
Defined.

End Paragraphs.
